(** * The chatterbox demo driver (src/main.py)

    The script loads a pretrained text-to-speech model, asks it three times
    for speech of one fixed text and writes each waveform to a file.  The
    model library (chatterbox) and the audio writer (torchaudio) are not
    part of the repository: they are the interface [Collaborators] below,
    and every statement of the script is a computation in a state and
    exception monad over the module namespace, the world outside of the
    interpreter and the record of the calls that crossed that boundary. *)

From Stdlib Require Import ZArith Ascii String.
From stdpp Require Import gmap strings list.

Local Open Scope string_scope.
Local Open Scope list_scope.
Local Open Scope Z_scope.

(** ** The two collaborators *)

(** [ChatterboxTTS.from_pretrained], [model.generate], [model.sr] and
    [ta.save].  A call receives the world as it is and hands back the world
    as it leaves it, together with either the exception it raised or its
    value.  [cwd], [files] and [has_device] are what an observer of the
    host can see of a world: the working directory of the process, the
    audio files on disk under their absolute paths, and the compute devices
    that are present. *)
Class Collaborators := {
  handle : Type;
  tensor : Type;
  fault : Type;
  world : Type;
  audio : Type;
  from_pretrained : string → world → (fault + handle) * world;
  sr : handle → Z;
  generate : handle → string → option string → world → (fault + tensor) * world;
  save : string → tensor → Z → world → (fault + unit) * world;
  encode : tensor → Z → audio;
  cwd : world → string;
  files : world → gmap string audio;
  has_device : world → string → bool
}.

(** POSIX path resolution: a path that starts with a slash is absolute, any
    other path is taken below the working directory. *)
Definition isabs (p : string) : bool :=
  match p with
  | String "/"%char _ => true
  | _ => false
  end.

Definition abspath (dir p : string) : string :=
  if isabs p then p else dir +:+ "/" +:+ p.

(** A call as the script writes it, without the objects that only exist
    at run time (the handle, the waveform, the outcome). *)
Inductive request :=
  | ReqLoad (device : string)
  | ReqGenerate (text : string) (audio_prompt_path : option string)
  | ReqSave (path : string).

(** The seven calls of the script in source order (lines 4, 7, 8, 11, 12,
    15 and 16). *)
Definition script_requests : list request :=
  [ReqLoad "cuda";
   ReqGenerate "Suhhhhhhhhhhhhh" None; ReqSave "test-1.wav";
   ReqGenerate "Suhhhhhhhhhhhhh" (Some "sample.wav"); ReqSave "test-2.wav";
   ReqGenerate "Suhhhhhhhhhhhhh" (Some "dad_sample.wav"); ReqSave "test-3.wav"].

(** What the script relies on without checking it: loading and synthesis
    leave the working directory and the audio files alone, loading on a
    device the host lacks raises, synthesis conditioned on a reference file
    needs that file, and saving touches at most the file it is given, which
    holds the encoded waveform when the call returns. *)
Class Contracts (C : Collaborators) : Prop := {
  load_frame d w r w' :
    from_pretrained d w = (r, w') → cwd w' = cwd w ∧ files w' = files w;
  load_device d w r w' :
    from_pretrained d w = (r, w') → has_device w d = false → ∃ e, r = inl e;
  generate_frame m t q w r w' :
    generate m t q w = (r, w') → cwd w' = cwd w ∧ files w' = files w;
  generate_prompt m t q w wav w' :
    generate m t (Some q) w = (inr wav, w') →
    is_Some (files w !! abspath (cwd w) q);
  save_frame q wav rate w r w' :
    save q wav rate w = (r, w') →
    cwd w' = cwd w ∧
    ∀ k, k ≠ abspath (cwd w) q → files w' !! k = files w !! k;
  save_file q wav rate w u w' :
    save q wav rate w = (inr u, w') →
    files w' !! abspath (cwd w) q = Some (encode wav rate)
}.

Section Driver.
Context `{C : Collaborators}.

(** ** Interpreter state *)

(** The objects a module-level name of the script can be bound to. *)
Inductive value :=
  | VModel (m : handle)
  | VStr (s : string)
  | VTensor (t : tensor).

(** What ends a statement early: an unbound name, an object of the wrong
    kind, or an exception raised inside a collaborator. *)
Inductive exception :=
  | NameError (name : string)
  | TypeError (v : value)
  | Raised (e : fault).

(** One call into a collaborator with its arguments and its outcome. *)
Inductive event :=
  | EvLoad (device : string) (r : fault + handle)
  | EvGenerate (m : handle) (text : string) (audio_prompt_path : option string)
      (r : fault + tensor)
  | EvSave (path : string) (wav : tensor) (sample_rate : Z) (r : fault + unit).

(** The command line and the environment variables of the process. *)
Record process := Process {
  argv : list string;
  environ : gmap string string
}.

Record state := State {
  globals : gmap string value;
  outside : world;
  calls : list event;
  proc : process
}.

Definition Script (A : Type) : Type := state → (exception + A) * state.

Definition ret {A} (a : A) : Script A := λ s, (inr a, s).

Definition bind {A B} (c : Script A) (k : A → Script B) : Script B :=
  λ s, match c s with
       | (inr a, s') => k a s'
       | (inl e, s') => (inl e, s')
       end.

Definition raise {A} (e : exception) : Script A := λ s, (inl e, s).

#[global] Instance script_ret : MRet Script := @ret.
#[global] Instance script_bind : MBind Script := λ A B k c, bind c k.

(** Reading and binding a module-level name. *)
Definition load_global (x : string) : Script value :=
  λ s, match globals s !! x with
       | Some v => (inr v, s)
       | None => (inl (NameError x), s)
       end.

Definition store_global (x : string) (v : value) : Script unit :=
  λ s, (inr tt, State (<[x := v]> (globals s)) (outside s) (calls s) (proc s)).

Definition as_model (v : value) : Script handle :=
  match v with VModel m => ret m | _ => raise (TypeError v) end.

Definition as_str (v : value) : Script string :=
  match v with VStr t => ret t | _ => raise (TypeError v) end.

Definition as_tensor (v : value) : Script tensor :=
  match v with VTensor t => ret t | _ => raise (TypeError v) end.

(** A call crosses the boundary: the collaborator runs on the current
    world, the call is recorded, an exception it raises is re-raised. *)
Definition lift {A} (r : fault + A) : exception + A :=
  match r with
  | inl e => inl (Raised e)
  | inr a => inr a
  end.

Definition call_from_pretrained (device : string) : Script handle :=
  λ s, let '(r, w) := from_pretrained device (outside s) in
       (lift r, State (globals s) w (calls s ++ [EvLoad device r]) (proc s)).

Definition call_generate (m : handle) (text : string)
    (audio_prompt_path : option string) : Script tensor :=
  λ s, let '(r, w) := generate m text audio_prompt_path (outside s) in
       (lift r,
        State (globals s) w
          (calls s ++ [EvGenerate m text audio_prompt_path r]) (proc s)).

Definition call_save (path : string) (wav : tensor) (sample_rate : Z)
    : Script unit :=
  λ s, let '(r, w) := save path wav sample_rate (outside s) in
       (lift r,
        State (globals s) w (calls s ++ [EvSave path wav sample_rate r])
          (proc s)).

(** ** The script, statement by statement *)

(** Line 4: [model = ChatterboxTTS.from_pretrained(device="cuda")]. *)
Definition line4 : Script unit :=
  m ← call_from_pretrained "cuda";
  store_global "model" (VModel m).

(** Line 6: [text = "Suhhhhhhhhhhhhh"]. *)
Definition line6 : Script unit :=
  store_global "text" (VStr "Suhhhhhhhhhhhhh").

(** Line 7: [wav = model.generate(text)]. *)
Definition line7 : Script unit :=
  v ← load_global "model"; m ← as_model v;
  v ← load_global "text"; t ← as_str v;
  wav ← call_generate m t None;
  store_global "wav" (VTensor wav).

(** Line 8: [ta.save("test-1.wav", wav, model.sr)]. *)
Definition line8 : Script unit :=
  v ← load_global "wav"; wav ← as_tensor v;
  v ← load_global "model"; m ← as_model v;
  call_save "test-1.wav" wav (sr m).

(** Line 10: [AUDIO_PROMPT_PATH="sample.wav"]. *)
Definition line10 : Script unit :=
  store_global "AUDIO_PROMPT_PATH" (VStr "sample.wav").

(** Line 11: [wav = model.generate(text, audio_prompt_path=AUDIO_PROMPT_PATH)]. *)
Definition line11 : Script unit :=
  v ← load_global "model"; m ← as_model v;
  v ← load_global "text"; t ← as_str v;
  v ← load_global "AUDIO_PROMPT_PATH"; p ← as_str v;
  wav ← call_generate m t (Some p);
  store_global "wav" (VTensor wav).

(** Line 12: [ta.save("test-2.wav", wav, model.sr)]. *)
Definition line12 : Script unit :=
  v ← load_global "wav"; wav ← as_tensor v;
  v ← load_global "model"; m ← as_model v;
  call_save "test-2.wav" wav (sr m).

(** Line 14: [AUDIO_PROMPT_PATH="dad_sample.wav"]. *)
Definition line14 : Script unit :=
  store_global "AUDIO_PROMPT_PATH" (VStr "dad_sample.wav").

(** Line 15: [wav = model.generate(text, audio_prompt_path=AUDIO_PROMPT_PATH)]. *)
Definition line15 : Script unit :=
  v ← load_global "model"; m ← as_model v;
  v ← load_global "text"; t ← as_str v;
  v ← load_global "AUDIO_PROMPT_PATH"; p ← as_str v;
  wav ← call_generate m t (Some p);
  store_global "wav" (VTensor wav).

(** Line 16: [ta.save("test-3.wav", wav, model.sr)]. *)
Definition line16 : Script unit :=
  v ← load_global "wav"; wav ← as_tensor v;
  v ← load_global "model"; m ← as_model v;
  call_save "test-3.wav" wav (sr m).

Definition main : Script unit :=
  line4;; line6;; line7;; line8;; line10;; line11;; line12;;
  line14;; line15;; line16.

(** A fresh interpreter: nothing bound, nothing called yet. *)
Definition boot (p : process) (w : world) : state := State ∅ w [] p.

Definition run (p : process) (w : world) : (exception + unit) * state :=
  main (boot p w).

(** ** What a run can look like *)

(** The text every request carries (line 6). *)
Definition script_text : string := "Suhhhhhhhhhhhhh".

(** The calls of a run and its result: the run stops at the first call
    that raises, with that exception, or goes through all seven calls. *)
Inductive script_trace : exception + unit → list event → Prop :=
  | stop_load e :
      script_trace (inl (Raised e)) [EvLoad "cuda" (inl e)]
  | stop_generate1 h e :
      script_trace (inl (Raised e))
        [EvLoad "cuda" (inr h); EvGenerate h script_text None (inl e)]
  | stop_save1 h w1 e :
      script_trace (inl (Raised e))
        [EvLoad "cuda" (inr h); EvGenerate h script_text None (inr w1);
         EvSave "test-1.wav" w1 (sr h) (inl e)]
  | stop_generate2 h w1 e :
      script_trace (inl (Raised e))
        [EvLoad "cuda" (inr h); EvGenerate h script_text None (inr w1);
         EvSave "test-1.wav" w1 (sr h) (inr tt);
         EvGenerate h script_text (Some "sample.wav") (inl e)]
  | stop_save2 h w1 w2 e :
      script_trace (inl (Raised e))
        [EvLoad "cuda" (inr h); EvGenerate h script_text None (inr w1);
         EvSave "test-1.wav" w1 (sr h) (inr tt);
         EvGenerate h script_text (Some "sample.wav") (inr w2);
         EvSave "test-2.wav" w2 (sr h) (inl e)]
  | stop_generate3 h w1 w2 e :
      script_trace (inl (Raised e))
        [EvLoad "cuda" (inr h); EvGenerate h script_text None (inr w1);
         EvSave "test-1.wav" w1 (sr h) (inr tt);
         EvGenerate h script_text (Some "sample.wav") (inr w2);
         EvSave "test-2.wav" w2 (sr h) (inr tt);
         EvGenerate h script_text (Some "dad_sample.wav") (inl e)]
  | stop_save3 h w1 w2 w3 e :
      script_trace (inl (Raised e))
        [EvLoad "cuda" (inr h); EvGenerate h script_text None (inr w1);
         EvSave "test-1.wav" w1 (sr h) (inr tt);
         EvGenerate h script_text (Some "sample.wav") (inr w2);
         EvSave "test-2.wav" w2 (sr h) (inr tt);
         EvGenerate h script_text (Some "dad_sample.wav") (inr w3);
         EvSave "test-3.wav" w3 (sr h) (inl e)]
  | completed h w1 w2 w3 :
      script_trace (inr tt)
        [EvLoad "cuda" (inr h); EvGenerate h script_text None (inr w1);
         EvSave "test-1.wav" w1 (sr h) (inr tt);
         EvGenerate h script_text (Some "sample.wav") (inr w2);
         EvSave "test-2.wav" w2 (sr h) (inr tt);
         EvGenerate h script_text (Some "dad_sample.wav") (inr w3);
         EvSave "test-3.wav" w3 (sr h) (inr tt)].

(** A record of calls is what the collaborators really answered, from one
    world to another. *)
Inductive replay : world → list event → world → Prop :=
  | replay_nil w : replay w [] w
  | replay_load d r w w1 evs w' :
      from_pretrained d w = (r, w1) → replay w1 evs w' →
      replay w (EvLoad d r :: evs) w'
  | replay_generate m t p r w w1 evs w' :
      generate m t p w = (r, w1) → replay w1 evs w' →
      replay w (EvGenerate m t p r :: evs) w'
  | replay_save q wav rate r w w1 evs w' :
      save q wav rate w = (r, w1) → replay w1 evs w' →
      replay w (EvSave q wav rate r :: evs) w'.

Definition request_of (ev : event) : request :=
  match ev with
  | EvLoad d _ => ReqLoad d
  | EvGenerate _ t q _ => ReqGenerate t q
  | EvSave q _ _ _ => ReqSave q
  end.

(** The exception a call ended with, if it did. *)
Definition event_fault (ev : event) : option fault :=
  match ev with
  | EvLoad _ (inl e) | EvGenerate _ _ _ (inl e) | EvSave _ _ _ (inl e) => Some e
  | _ => None
  end.

(** The synthesis requests of a record, and what was handed to the writer. *)
Definition synthesis_requests (evs : list event)
    : list (string * option string) :=
  omap (λ ev, match ev with
              | EvGenerate _ t q _ => Some (t, q)
              | _ => None
              end) evs.

Definition written (evs : list event) : list (string * tensor) :=
  omap (λ ev, match ev with
              | EvSave q wav _ _ => Some (q, wav)
              | _ => None
              end) evs.

Definition synthesized (evs : list event) : list tensor :=
  omap (λ ev, match ev with
              | EvGenerate _ _ _ (inr wav) => Some wav
              | _ => None
              end) evs.

Definition is_load (ev : event) : bool :=
  match ev with EvLoad _ _ => true | _ => false end.

(** ** Helper notions for the proofs *)

(** [wav = model.generate(text ...)] once the names it reads are bound. *)
Definition after_generate (h : handle) (t : string) (p : option string)
    (s : state) : (exception + unit) * state :=
  match generate h t p (outside s) with
  | (inl e, w) =>
      (inl (Raised e),
       State (globals s) w (calls s ++ [EvGenerate h t p (inl e)]) (proc s))
  | (inr wav, w) =>
      (inr tt,
       State (<["wav" := VTensor wav]> (globals s)) w
         (calls s ++ [EvGenerate h t p (inr wav)]) (proc s))
  end.

(** [ta.save(path, wav, model.sr)] once the names it reads are bound. *)
Definition after_save (q : string) (wav : tensor) (h : handle) (s : state)
    : (exception + unit) * state :=
  match save q wav (sr h) (outside s) with
  | (inl e, w) =>
      (inl (Raised e),
       State (globals s) w (calls s ++ [EvSave q wav (sr h) (inl e)]) (proc s))
  | (inr u, w) =>
      (inr tt,
       State (globals s) w (calls s ++ [EvSave q wav (sr h) (inr tt)]) (proc s))
  end.

(** Swapping the command line and the environment of a state. *)
Definition reproc (p : process) (s : state) : state :=
  State (globals s) (outside s) (calls s) p.

(** A computation is oblivious when swapping the command line and the
    environment before it runs only swaps them in the state it leaves. *)
Definition oblivious {A} (c : Script A) : Prop :=
  ∀ p s, c (reproc p s) = ((c s).1, reproc p (c s).2).

(** A computation keeps a name when the name is bound after it to what
    it was bound to before, whether the computation returns or raises. *)
Definition keeps (x : string) {A} (c : Script A) : Prop :=
  ∀ s, globals (c s).2 !! x = globals s !! x.

(** The paths a run names: references are sample.wav or dad_sample.wav,
    outputs are test-1.wav, test-2.wav or test-3.wav, none is absolute. *)
Definition names_script_paths (ev : event) : Prop :=
  match ev with
  | EvLoad _ _ => True
  | EvGenerate _ _ None _ => True
  | EvGenerate _ _ (Some q) _ =>
      isabs q = false ∧ q ∈ ["sample.wav"; "dad_sample.wav"]
  | EvSave q _ _ _ =>
      isabs q = false ∧ q ∈ ["test-1.wav"; "test-2.wav"; "test-3.wav"]
  end.

End Driver.

(** ** A stand-in for the collaborators

    A synthesizer that can be run: a handle is its sample rate, a waveform
    a list of samples, the world a working directory, a disk and the list
    of devices of the host. *)
Module Stub.

Inductive error := ModelLoadError | SynthesisError | AudioPromptError | IOError.

Record host := Host {
  dir : string;
  disk : gmap string (list Z * Z);
  devices : list string
}.

Definition samples (t : string) : list Z :=
  (λ c, Z.of_nat (nat_of_ascii c)) <$> list_ascii_of_string t.

Definition load (device : string) (w : host) : (error + Z) * host :=
  if bool_decide (device ∈ devices w) then (inr 24000, w)
  else (inl ModelLoadError, w).

Definition synthesize (m : Z) (t : string) (q : option string) (w : host)
    : (error + list Z) * host :=
  if bool_decide (t = EmptyString) then (inl SynthesisError, w)
  else match q with
       | None => (inr (samples t), w)
       | Some q =>
           match disk w !! abspath (dir w) q with
           | Some (voice, _) => (inr (voice ++ samples t), w)
           | None => (inl AudioPromptError, w)
           end
       end.

Definition persist (q : string) (wav : list Z) (rate : Z) (w : host)
    : (error + unit) * host :=
  if bool_decide (q = EmptyString) then (inl IOError, w)
  else (inr tt,
        Host (dir w) (<[abspath (dir w) q := (wav, rate)]> (disk w))
          (devices w)).

#[export] Instance collaborators : Collaborators := {|
  handle := Z;
  tensor := list Z;
  fault := error;
  world := host;
  audio := list Z * Z;
  from_pretrained := load;
  sr := λ m, m;
  generate := synthesize;
  save := persist;
  encode := λ wav rate, (wav, rate);
  cwd := dir;
  files := disk;
  has_device := λ w d, bool_decide (d ∈ devices w)
|}.

(** A host with the device and both reference recordings, a host without
    the device, and a host where the second recording is missing. *)
Definition voice_a : list Z * Z := ([3; 1; 4], 16000).
Definition voice_b : list Z * Z := ([2; 7; 1; 8], 16000).

Definition studio : host :=
  Host "/home/demo"
    (<["/home/demo/sample.wav" := voice_a]>
       (<["/home/demo/dad_sample.wav" := voice_b]> ∅))
    ["cpu"; "cuda"].

Definition laptop : host :=
  Host "/home/demo" (<["/home/demo/sample.wav" := voice_a]> ∅) ["cpu"].

Definition half_studio : host :=
  Host "/home/demo" (<["/home/demo/sample.wav" := voice_a]> ∅) ["cpu"; "cuda"].

Definition quiet : process := Process ["main.py"] ∅.

Definition noisy : process :=
  Process ["main.py"; "--device"; "cpu"] (<["CUDA_VISIBLE_DEVICES" := "-1"]> ∅).

End Stub.

(** A run of the script against the stand-in. *)
Definition demo (p : process) (w : Stub.host) :=
  run (C := Stub.collaborators) p w.

(** A fresh interpreter on the host that has everything. *)
Definition fresh : @state Stub.collaborators :=
  boot (C := Stub.collaborators) Stub.quiet Stub.studio.

(** An interpreter that has been used before the script starts: a name of
    its own is bound, wav is bound to a string, a call is on record. *)
Definition warm : @state Stub.collaborators :=
  @State Stub.collaborators
    (<["__name__" := VStr "__main__"]> (<["wav" := VStr "old"]> ∅))
    Stub.studio [@EvLoad Stub.collaborators "cpu" (inr 16000)] Stub.noisy.

(** * Properties of the driver *)

Section Properties.
Context `{C : Collaborators}.

(** ** The statements as equations *)

Lemma seq_eq {A B} (c : Script A) (k : A → Script B) s :
  (c ≫= k) s =
  match c s with
  | (inr a, s') => k a s'
  | (inl e, s') => (inl e, s')
  end.
Proof. reflexivity. Qed.

Lemma line4_eq s :
  line4 s =
  match from_pretrained "cuda" (outside s) with
  | (inl e, w) =>
      (inl (Raised e),
       State (globals s) w (calls s ++ [EvLoad "cuda" (inl e)]) (proc s))
  | (inr h, w) =>
      (inr tt,
       State (<["model" := VModel h]> (globals s)) w
         (calls s ++ [EvLoad "cuda" (inr h)]) (proc s))
  end.
Proof.
  unfold line4. rewrite seq_eq. unfold call_from_pretrained.
  destruct (from_pretrained "cuda" (outside s)) as [[e|h] w]; reflexivity.
Qed.

Lemma assign_eq x v s :
  store_global x v s =
  (inr tt, State (<[x := v]> (globals s)) (outside s) (calls s) (proc s)).
Proof. reflexivity. Qed.

Lemma load_global_eq x v s :
  globals s !! x = Some v → load_global x s = (inr v, s).
Proof. unfold load_global. intros ->. reflexivity. Qed.

Ltac read_names :=
  repeat (rewrite seq_eq;
          first [ erewrite load_global_eq by eassumption
                | progress simpl ]).

Lemma line7_eq s h t :
  globals s !! "model" = Some (VModel h) →
  globals s !! "text" = Some (VStr t) →
  line7 s = after_generate h t None s.
Proof.
  intros Hm Ht. unfold line7, after_generate. read_names.
  rewrite seq_eq. unfold call_generate.
  destruct (generate h t None (outside s)) as [[e|wav] w]; reflexivity.
Qed.

Lemma line11_eq s h t p :
  globals s !! "model" = Some (VModel h) →
  globals s !! "text" = Some (VStr t) →
  globals s !! "AUDIO_PROMPT_PATH" = Some (VStr p) →
  line11 s = after_generate h t (Some p) s.
Proof.
  intros Hm Ht Hp. unfold line11, after_generate. read_names.
  rewrite seq_eq. unfold call_generate.
  destruct (generate h t (Some p) (outside s)) as [[e|wav] w]; reflexivity.
Qed.

Lemma line15_eq s h t p :
  globals s !! "model" = Some (VModel h) →
  globals s !! "text" = Some (VStr t) →
  globals s !! "AUDIO_PROMPT_PATH" = Some (VStr p) →
  line15 s = after_generate h t (Some p) s.
Proof. apply line11_eq. Qed.

Ltac save_eq :=
  intros; unfold after_save; read_names; unfold call_save;
  match goal with
  | |- context [save ?q ?wav ?rate ?w] =>
      destruct (save q wav rate w) as [[?|[]] ?]; reflexivity
  end.

Lemma line8_eq s h wav :
  globals s !! "wav" = Some (VTensor wav) →
  globals s !! "model" = Some (VModel h) →
  line8 s = after_save "test-1.wav" wav h s.
Proof. unfold line8. save_eq. Qed.

Lemma line12_eq s h wav :
  globals s !! "wav" = Some (VTensor wav) →
  globals s !! "model" = Some (VModel h) →
  line12 s = after_save "test-2.wav" wav h s.
Proof. unfold line12. save_eq. Qed.

Lemma line16_eq s h wav :
  globals s !! "wav" = Some (VTensor wav) →
  globals s !! "model" = Some (VModel h) →
  line16 s = after_save "test-3.wav" wav h s.
Proof. unfold line16. save_eq. Qed.

(** ** Running the whole script *)

Ltac bound :=
  simpl; rewrite ?lookup_insert_eq;
  repeat (rewrite lookup_insert_ne by discriminate; rewrite ?lookup_insert_eq);
  reflexivity.

Ltac next_line L := rewrite ?seq_eq; first [ rewrite L | erewrite L by bound ].

Ltac fork H :=
  unfold after_generate, after_save in H; simpl in H;
  match type of H with
  | context [generate ?h ?t ?p ?w] =>
      destruct (generate h t p w) as [[?|?] ?] eqn:?
  | context [save ?q ?wav ?rate ?w] =>
      destruct (save q wav rate w) as [[?|[]] ?] eqn:?
  end.

Ltac settle H :=
  simpl in H; injection H as <- <-; simpl;
  eexists; split; [ rewrite <- ?app_assoc; reflexivity | ];
  split; [ constructor | ];
  split; [ repeat (econstructor; [ eassumption | ]); constructor | ];
  split; [ reflexivity | ].

Lemma main_inv s r s' :
  main s = (r, s') →
  ∃ evs, calls s' = calls s ++ evs ∧ script_trace r evs ∧
         replay (outside s) evs (outside s') ∧ proc s' = proc s ∧
         match evs with
         | EvLoad _ (inr h) :: _ => globals s' !! "model" = Some (VModel h)
         | _ => globals s' = globals s
         end.
Proof.
  unfold main, line6, line10, line14. intros H.
  rewrite seq_eq, line4_eq in H.
  destruct (from_pretrained "cuda" (outside s)) as [[e|h] w1] eqn:E1.
  { settle H. reflexivity. }
  rewrite seq_eq, assign_eq, seq_eq in H.
  erewrite line7_eq in H by bound. fork H. { settle H. bound. }
  rewrite seq_eq in H.
  erewrite line8_eq in H by bound. fork H. { settle H. bound. }
  rewrite seq_eq, assign_eq, seq_eq in H.
  erewrite line11_eq in H by bound. fork H. { settle H. bound. }
  rewrite seq_eq in H.
  erewrite line12_eq in H by bound. fork H. { settle H. bound. }
  rewrite seq_eq, assign_eq, seq_eq in H.
  erewrite line15_eq in H by bound. fork H. { settle H. bound. }
  erewrite line16_eq in H by bound. fork H; settle H; bound.
Qed.

Lemma run_inv p w r s' :
  run p w = (r, s') →
  script_trace r (calls s') ∧ replay w (calls s') (outside s') ∧
  proc s' = p ∧
  match calls s' with
  | EvLoad _ (inr h) :: _ => globals s' !! "model" = Some (VModel h)
  | _ => globals s' = ∅
  end.
Proof.
  intros H. destruct (main_inv _ _ _ H) as (evs & Hc & Ht & Hr & Hp & Hg).
  simpl in *. subst evs. auto.
Qed.

Ltac by_index i :=
  repeat (destruct i as [|i]; simpl in *; simplify_eq; eauto 12).

(** *** The process context is never consulted *)

Lemma oblivious_bind {A B} (c : Script A) (k : A → Script B) :
  oblivious c → (∀ a, oblivious (k a)) → oblivious (c ≫= k).
Proof.
  intros Hc Hk p s. rewrite !seq_eq, Hc.
  destruct (c s) as [[e|a] s1]; simpl; [reflexivity | apply Hk].
Qed.

Lemma oblivious_ret {A} (a : A) : oblivious (ret a).
Proof. intros p s. reflexivity. Qed.

Lemma oblivious_raise {A} e : oblivious (raise (A:=A) e).
Proof. intros p s. reflexivity. Qed.

Lemma oblivious_load_global x : oblivious (load_global x).
Proof.
  intros p s. unfold load_global. simpl.
  destruct (globals s !! x); reflexivity.
Qed.

Lemma oblivious_store_global x v : oblivious (store_global x v).
Proof. intros p s. reflexivity. Qed.

Lemma oblivious_as_model v : oblivious (as_model v).
Proof. destruct v as [m|t|t]; intros p s; reflexivity. Qed.

Lemma oblivious_as_str v : oblivious (as_str v).
Proof. destruct v as [m|t|t]; intros p s; reflexivity. Qed.

Lemma oblivious_as_tensor v : oblivious (as_tensor v).
Proof. destruct v as [m|t|t]; intros p s; reflexivity. Qed.

Lemma oblivious_from_pretrained d : oblivious (call_from_pretrained d).
Proof.
  intros p s. unfold call_from_pretrained. simpl.
  destruct (from_pretrained d (outside s)); reflexivity.
Qed.

Lemma oblivious_generate m t q : oblivious (call_generate m t q).
Proof.
  intros p s. unfold call_generate. simpl.
  destruct (generate m t q (outside s)); reflexivity.
Qed.

Lemma oblivious_save q wav rate : oblivious (call_save q wav rate).
Proof.
  intros p s. unfold call_save. simpl.
  destruct (save q wav rate (outside s)); reflexivity.
Qed.

Create HintDb oblivious.
#[local] Hint Resolve oblivious_ret oblivious_raise oblivious_load_global
  oblivious_store_global oblivious_as_model oblivious_as_str
  oblivious_as_tensor oblivious_from_pretrained oblivious_generate
  oblivious_save : oblivious.

Lemma oblivious_main : oblivious main.
Proof.
  unfold main, line4, line6, line7, line8, line10, line11, line12, line14,
    line15, line16.
  repeat (apply oblivious_bind; [| intros ?]); auto with oblivious.
Qed.

Lemma run_reproc p1 p2 w :
  run p1 w = ((run p2 w).1, reproc p1 (run p2 w).2).
Proof. unfold run. rewrite <- oblivious_main. reflexivity. Qed.

(** *** Statements that leave a name alone *)

Lemma keeps_bind x {A B} (c : Script A) (k : A → Script B) :
  keeps x c → (∀ a, keeps x (k a)) → keeps x (c ≫= k).
Proof.
  intros Hc Hk s. rewrite seq_eq. specialize (Hc s).
  destruct (c s) as [[e|a] s1]; simpl in *; [exact Hc |].
  by rewrite Hk.
Qed.

Lemma keeps_ret x {A} (a : A) : keeps x (ret a).
Proof. intros s. reflexivity. Qed.

Lemma keeps_raise x {A} e : keeps x (raise (A:=A) e).
Proof. intros s. reflexivity. Qed.

Lemma keeps_load_global x y : keeps x (load_global y).
Proof. intros s. unfold load_global. destruct (globals s !! y); reflexivity. Qed.

Lemma keeps_store_global x y v : y ≠ x → keeps x (store_global y v).
Proof. intros Hne s. simpl. by rewrite lookup_insert_ne. Qed.

Lemma keeps_as_model x v : keeps x (as_model v).
Proof. destruct v; intros ?; reflexivity. Qed.

Lemma keeps_as_str x v : keeps x (as_str v).
Proof. destruct v; intros ?; reflexivity. Qed.

Lemma keeps_as_tensor x v : keeps x (as_tensor v).
Proof. destruct v; intros ?; reflexivity. Qed.

Lemma keeps_generate x m t q : keeps x (call_generate m t q).
Proof.
  intros s. unfold call_generate.
  destruct (generate m t q (outside s)); reflexivity.
Qed.

Lemma keeps_save x q wav rate : keeps x (call_save q wav rate).
Proof.
  intros s. unfold call_save.
  destruct (save q wav rate (outside s)); reflexivity.
Qed.

Create HintDb keeps.
#[local] Hint Resolve keeps_ret keeps_raise keeps_load_global keeps_as_model
  keeps_as_str keeps_as_tensor keeps_generate keeps_save : keeps.
#[local] Hint Extern 1 (keeps _ (store_global _ _)) =>
  apply keeps_store_global; discriminate : keeps.

Lemma lines_keep_model :
  Forall (keeps "model")
    [line6; line7; line8; line10; line11; line12; line14; line15; line16].
Proof.
  unfold line6, line7, line8, line10, line11, line12, line14, line15, line16.
  repeat (apply Forall_cons_2;
          [ repeat (apply keeps_bind; [| intros ?]); auto with keeps |]).
  apply Forall_nil_2.
Qed.

Lemma script_trace_requests r evs :
  script_trace r evs →
  request_of <$> evs `prefix_of` script_requests ∧
  (r = inr tt → request_of <$> evs = script_requests).
Proof.
  intros Ht; inversion Ht; subst; simpl;
    (split; [eexists; reflexivity | first [ discriminate | reflexivity ]]).
Qed.

(** C1.  A run is a genuine chain of calls, each made on the world the one
    before it left behind; a run that completes made exactly the seven
    calls load, synthesize (no reference), save test-1.wav, synthesize
    (sample.wav), save test-2.wav, synthesize (dad_sample.wav), save
    test-3.wav, every save carrying the waveform of the synthesis before
    it; and in any run a synthesis request that is not the first comes
    right after the successful save of the previous result. *)
Theorem fixed_sequence p w r s' :
  run p w = (r, s') →
  replay w (calls s') (outside s') ∧
  (r = inr tt →
   ∃ h w1 w2 w3,
     calls s' =
     [EvLoad "cuda" (inr h);
      EvGenerate h "Suhhhhhhhhhhhhh" None (inr w1);
      EvSave "test-1.wav" w1 (sr h) (inr tt);
      EvGenerate h "Suhhhhhhhhhhhhh" (Some "sample.wav") (inr w2);
      EvSave "test-2.wav" w2 (sr h) (inr tt);
      EvGenerate h "Suhhhhhhhhhhhhh" (Some "dad_sample.wav") (inr w3);
      EvSave "test-3.wav" w3 (sr h) (inr tt)]) ∧
  (∀ i m t q x,
     calls s' !! (2 + i)%nat = Some (EvGenerate m t q x) →
     ∃ m' t' q' wav path rate,
       calls s' !! i = Some (EvGenerate m' t' q' (inr wav)) ∧
       calls s' !! (1 + i)%nat = Some (EvSave path wav rate (inr tt))).
Proof.
  intros H. destruct (run_inv _ _ _ _ H) as (Ht & Hr & _ & _).
  split; [exact Hr |]. split.
  - intros ->. inversion Ht; subst. eauto 6.
  - intros i m t q x Hi. inversion Ht as [| | | | | | |]; subst;
      match goal with E : _ = calls s' |- _ => rewrite <- E in *; clear E end;
      by_index i.
Qed.

(** C4.  The synthesis requests of a run are the first ones of: the text
    alone, the text with sample.wav, the text with dad_sample.wav; the
    reference of each request differs from the others and no two saves go
    to the same path.  A run that completes has issued exactly these three
    requests, all with the one text, and has handed the three results, in
    order, to test-1.wav, test-2.wav and test-3.wav. *)
Theorem three_requests p w r s' :
  run p w = (r, s') →
  synthesis_requests (calls s') `prefix_of`
    [("Suhhhhhhhhhhhhh", None); ("Suhhhhhhhhhhhhh", Some "sample.wav");
     ("Suhhhhhhhhhhhhh", Some "dad_sample.wav")] ∧
  NoDup (snd <$> synthesis_requests (calls s')) ∧
  NoDup (fst <$> written (calls s')) ∧
  (r = inr tt →
   synthesis_requests (calls s') =
     [("Suhhhhhhhhhhhhh", None); ("Suhhhhhhhhhhhhh", Some "sample.wav");
      ("Suhhhhhhhhhhhhh", Some "dad_sample.wav")] ∧
   fst <$> written (calls s') = ["test-1.wav"; "test-2.wav"; "test-3.wav"] ∧
   snd <$> written (calls s') = synthesized (calls s') ∧
   length (synthesized (calls s')) = 3%nat).
Proof.
  intros H. destruct (run_inv _ _ _ _ H) as (Ht & _).
  inversion Ht; subst; simpl;
    (split; [eexists; reflexivity |]);
    (split; [compute_done |]); (split; [compute_done |]);
    first [ discriminate | intros _; repeat split ].
Qed.

(** C5.  Whatever a run hands to the writer is never its first call: it is
    the waveform the call just before it returned, a synthesis on the
    handle the load returned, the handle the name model is bound to, and
    the sample rate passed along is the sr of that handle. *)
Theorem save_uses_model_rate p w r s' n q wav rate x :
  run p w = (r, s') →
  calls s' !! n = Some (EvSave q wav rate x) →
  ∃ i h t a,
    n = S i ∧
    calls s' !! 0%nat = Some (EvLoad "cuda" (inr h)) ∧
    globals s' !! "model" = Some (VModel h) ∧
    calls s' !! i = Some (EvGenerate h t a (inr wav)) ∧
    rate = sr h.
Proof.
  intros H Hn. destruct (run_inv _ _ _ _ H) as (Ht & _ & _ & Hg).
  inversion Ht as [| | | | | | |]; subst;
    match goal with E : _ = calls s' |- _ => rewrite <- E in *; clear E end;
    by_index n.
Qed.

(** C6.  Every synthesis request of every run carries the literal text of
    line 6, which is not the empty string. *)
Theorem text_never_empty p w :
  Forall (λ ev, match ev with
                | EvGenerate _ t _ _ => t = "Suhhhhhhhhhhhhh" ∧ t ≠ EmptyString
                | _ => True
                end) (calls (run p w).2).
Proof.
  destruct (run p w) as [r s'] eqn:H.
  destruct (run_inv _ _ _ _ H) as (Ht & _).
  simpl. inversion Ht; subst; repeat constructor; done.
Qed.

(** C7.  Two runs on one world that differ in command line and
    environment return the same result, make the same calls with the same
    outcomes and leave the same world and the same bindings.  Whatever the
    command line, the environment and the world, the calls of a run are an
    initial part of the seven calls written in the script, all of them when
    the run completes; so two runs that get equally far have issued the
    same calls. *)
Theorem no_outside_parameters p1 p2 w w1 w2 :
  (run p1 w).1 = (run p2 w).1 ∧
  calls (run p1 w).2 = calls (run p2 w).2 ∧
  outside (run p1 w).2 = outside (run p2 w).2 ∧
  globals (run p1 w).2 = globals (run p2 w).2 ∧
  request_of <$> calls (run p1 w1).2 `prefix_of` script_requests ∧
  ((run p1 w1).1 = inr tt →
   request_of <$> calls (run p1 w1).2 = script_requests) ∧
  (length (calls (run p1 w1).2) = length (calls (run p2 w2).2) →
   request_of <$> calls (run p1 w1).2 = request_of <$> calls (run p2 w2).2).
Proof.
  rewrite (run_reproc p1 p2 w). simpl. repeat (split; [reflexivity |]).
  destruct (run p1 w1) as [r1 s1] eqn:H1.
  destruct (run p2 w2) as [r2 s2] eqn:H2. simpl.
  destruct (run_inv _ _ _ _ H1) as (Ht1 & _).
  destruct (run_inv _ _ _ _ H2) as (Ht2 & _).
  destruct (script_trace_requests _ _ Ht1) as [[k1 Hk1] Hd1].
  destruct (script_trace_requests _ _ Ht2) as [[k2 Hk2] Hd2].
  split; [by exists k1 |]. split; [exact Hd1 |].
  intros Hlen.
  assert (Hl : length (request_of <$> calls s1)
               = length (request_of <$> calls s2))
    by (by rewrite !length_fmap).
  rewrite Hk1 in Hk2. by apply app_inj_1 in Hk2 as [? _].
Qed.

(** C8.  A run loads exactly once.  When the load returns a handle, the
    name model is bound to that handle when the run ends, every synthesis
    of the run was asked of that handle and every save was given its
    sample rate.  No statement after line 4 rebinds the name: from any
    state, whether the statement returns or raises, model is bound after
    it to what it was bound to before. *)
Theorem model_bound_once p w r s' :
  run p w = (r, s') →
  length (List.filter is_load (calls s')) = 1%nat ∧
  (∀ h, calls s' !! 0%nat = Some (EvLoad "cuda" (inr h)) →
        globals s' !! "model" = Some (VModel h) ∧
        Forall (λ ev, match ev with
                      | EvLoad _ x => x = inr h
                      | EvGenerate m _ _ _ => m = h
                      | EvSave _ _ rate _ => rate = sr h
                      end) (calls s')) ∧
  Forall (λ stmt : Script unit,
            ∀ s, globals (stmt s).2 !! "model" = globals s !! "model")
    [line6; line7; line8; line10; line11; line12; line14; line15; line16].
Proof.
  intros H. destruct (run_inv _ _ _ _ H) as (Ht & _ & _ & Hg).
  split; [inversion Ht; subst; reflexivity |]. split.
  - intros h Hh. inversion Ht as [| | | | | | |]; subst;
      match goal with E : _ = calls s' |- _ => rewrite <- E in *; clear E end;
      simplify_eq/=; (split; [done |]); repeat constructor.
  - exact lines_keep_model.
Qed.

(** ** Beyond the call sequence: names, outcomes, order *)

Lemma keeps_from_pretrained x d : keeps x (call_from_pretrained d).
Proof.
  intros s. unfold call_from_pretrained.
  destruct (from_pretrained d (outside s)); reflexivity.
Qed.

(** The namespace and the calls of a run of [main] that returns, from any
    state. *)
Lemma main_completed s s' :
  main s = (inr tt, s') →
  ∃ h w1 w2 w3,
    globals s' =
      <["wav" := VTensor w3]>
        (<["AUDIO_PROMPT_PATH" := VStr "dad_sample.wav"]>
           (<["wav" := VTensor w2]>
              (<["AUDIO_PROMPT_PATH" := VStr "sample.wav"]>
                 (<["wav" := VTensor w1]>
                    (<["text" := VStr script_text]>
                       (<["model" := VModel h]> (globals s))))))) ∧
    calls s' =
      calls s ++
      [EvLoad "cuda" (inr h); EvGenerate h script_text None (inr w1);
       EvSave "test-1.wav" w1 (sr h) (inr tt);
       EvGenerate h script_text (Some "sample.wav") (inr w2);
       EvSave "test-2.wav" w2 (sr h) (inr tt);
       EvGenerate h script_text (Some "dad_sample.wav") (inr w3);
       EvSave "test-3.wav" w3 (sr h) (inr tt)].
Proof.
  unfold main, line6, line10, line14. intros H.
  rewrite seq_eq, line4_eq in H.
  destruct (from_pretrained "cuda" (outside s)) as [[e|h] w1] eqn:E1;
    [by simpl in H |].
  rewrite seq_eq, assign_eq, seq_eq in H.
  erewrite line7_eq in H by bound. fork H; [by simpl in H |].
  rewrite seq_eq in H.
  erewrite line8_eq in H by bound. fork H; [by simpl in H |].
  rewrite seq_eq, assign_eq, seq_eq in H.
  erewrite line11_eq in H by bound. fork H; [by simpl in H |].
  rewrite seq_eq in H.
  erewrite line12_eq in H by bound. fork H; [by simpl in H |].
  rewrite seq_eq, assign_eq, seq_eq in H.
  erewrite line15_eq in H by bound. fork H; [by simpl in H |].
  erewrite line16_eq in H by bound. fork H; [by simpl in H |].
  simpl in H. injection H as <-. simpl.
  do 4 eexists. split; [reflexivity |].
  rewrite <- !app_assoc. reflexivity.
Qed.

Ltac replay_all :=
  repeat match goal with
         | H : replay _ (_ :: _) _ |- _ => inversion H; clear H; subst
         | H : replay _ [] _ |- _ => inversion H; clear H; subst
         end.

(** What the collaborators answer from a given world fixes the run. *)
Lemma script_outcome_unique w r1 evs1 w1 r2 evs2 w2 :
  script_trace r1 evs1 → replay w evs1 w1 →
  script_trace r2 evs2 → replay w evs2 w2 →
  r1 = r2 ∧ evs1 = evs2 ∧ w1 = w2.
Proof.
  intros Ht1 Hr1 Ht2 Hr2.
  inversion Ht1; subst; replay_all;
    inversion Ht2; subst; replay_all; repeat split; congruence.
Qed.

(** X1.  From any state, whatever was bound before, the script ends
    normally or with an exception a collaborator raised: it never fails on
    an unbound name or on an object of the wrong kind, because every name
    a statement reads was bound by an earlier statement. *)
Theorem only_library_exceptions s :
  match (main s).1 with
  | inl (NameError _) | inl (TypeError _) => False
  | inl (Raised _) | inr _ => True
  end.
Proof.
  destruct (main s) as [r s'] eqn:H.
  destruct (main_inv _ _ _ H) as (evs & _ & Ht & _).
  simpl. inversion Ht; done.
Qed.



(** X4.  What the script does depends on the world alone, not on what the
    interpreter had bound or called before: two executions from any two
    states over the same world return the same result, make the same calls
    with the same outcomes and leave the same world. *)
Theorem main_ignores_earlier_state s1 s2 :
  outside s1 = outside s2 →
  (main s1).1 = (main s2).1 ∧
  outside (main s1).2 = outside (main s2).2 ∧
  ∃ evs, calls (main s1).2 = calls s1 ++ evs ∧
         calls (main s2).2 = calls s2 ++ evs.
Proof.
  intros Hw.
  destruct (main s1) as [r1 s1'] eqn:H1. destruct (main s2) as [r2 s2'] eqn:H2.
  destruct (main_inv _ _ _ H1) as (evs1 & Hc1 & Ht1 & Hr1 & _).
  destruct (main_inv _ _ _ H2) as (evs2 & Hc2 & Ht2 & Hr2 & _).
  rewrite Hw in Hr1.
  destruct (script_outcome_unique _ _ _ _ _ _ _ Ht1 Hr1 Ht2 Hr2)
    as (-> & -> & Hout).
  simpl. eauto.
Qed.

(** X5.  A run makes at least one call and at most seven, and it returns
    normally exactly when no call raised; it then made all seven. *)
Theorem success_iff_no_fault p w r s' :
  run p w = (r, s') →
  (1 ≤ length (calls s') ≤ 7)%nat ∧
  (r = inr tt ↔ Forall (λ ev, event_fault ev = None) (calls s')) ∧
  (r = inr tt → length (calls s') = 7%nat).
Proof.
  intros H. destruct (run_inv _ _ _ _ H) as (Ht & _).
  inversion Ht; subst; simpl;
    (split; [lia |]);
    (split; [| first [ discriminate | reflexivity ]]);
    (split; [ first [ discriminate | intros _; repeat constructor ] |]);
    intros Hall; first [ reflexivity | exfalso ];
    repeat match goal with
           | H : Forall _ (_ :: _) |- _ =>
               apply Forall_cons_1 in H as [? H]
           end;
    simplify_eq/=.
Qed.

(** X6.  Outputs come in order and at most one waveform is ever pending:
    the paths handed to the writer are test-1.wav, test-2.wav, test-3.wav
    up to where the run stopped, the waveforms handed over are the
    synthesized ones in the order they were produced, and the writer has
    been given every waveform but possibly the last one. *)
Theorem outputs_in_order p w r s' :
  run p w = (r, s') →
  fst <$> written (calls s') `prefix_of`
    ["test-1.wav"; "test-2.wav"; "test-3.wav"] ∧
  snd <$> written (calls s') `prefix_of` synthesized (calls s') ∧
  (length (synthesized (calls s')) ≤ S (length (written (calls s'))))%nat.
Proof.
  intros H. destruct (run_inv _ _ _ _ H) as (Ht & _).
  inversion Ht; subst; simpl;
    (split; [eexists; reflexivity |]);
    (split; [eexists; reflexivity | lia]).
Qed.


(** ** What the disk looks like after a run *)

Lemma append_inj (d x y : string) : d +:+ x = d +:+ y → x = y.
Proof. induction d as [|c d IH]; simpl; [done |]. intros [= H]. auto. Qed.

Lemma abspath_inj d p q :
  isabs p = false → isabs q = false → abspath d p = abspath d q → p = q.
Proof.
  unfold abspath. intros -> -> H.
  apply append_inj in H. by apply (append_inj "/") in H.
Qed.

Lemma script_trace_paths r evs :
  script_trace r evs → Forall names_script_paths evs.
Proof.
  intros Ht; inversion Ht; subst;
    repeat (apply Forall_cons_2;
            [simpl; first [done | split; [done | set_solver]] |]);
    apply Forall_nil_2.
Qed.

Lemma script_trace_outputs r evs i j q wav rate x q' wav' rate' x' :
  script_trace r evs →
  evs !! i = Some (EvSave q wav rate x) →
  evs !! j = Some (EvSave q' wav' rate' x') →
  i ≠ j → q ≠ q'.
Proof.
  intros Ht Hi Hj Hne. inversion Ht; subst; by_index i; by_index j.
Qed.

Lemma reference_is_no_output d q q' :
  isabs q = false ∧ q ∈ ["sample.wav"; "dad_sample.wav"] →
  isabs q' = false ∧ q' ∈ ["test-1.wav"; "test-2.wav"; "test-3.wav"] →
  abspath d q' ≠ abspath d q.
Proof.
  intros [Hq Hin] [Hq' Hin'] Heq. apply abspath_inj in Heq; [| done..].
  subst q'. set_unfold. intuition congruence.
Qed.

Lemma script_outputs_apart r evs d i j q wav rate x q' wav' rate' x' :
  script_trace r evs →
  evs !! i = Some (EvSave q wav rate x) →
  evs !! j = Some (EvSave q' wav' rate' x') →
  i ≠ j → abspath d q' ≠ abspath d q.
Proof.
  intros Ht Hi Hj Hne Heq.
  pose proof (script_trace_paths _ _ Ht) as Hp.
  destruct (proj1 (Forall_lookup _ _) Hp _ _ Hi) as [Hq _].
  destruct (proj1 (Forall_lookup _ _) Hp _ _ Hj) as [Hq' _].
  apply abspath_inj in Heq; [| done..].
  by apply (script_trace_outputs _ _ _ _ _ _ _ _ _ _ _ _ Ht Hi Hj Hne).
Qed.

Lemma script_reference_apart r evs d i j m t q x q' wav' rate' x' :
  script_trace r evs →
  evs !! i = Some (EvGenerate m t (Some q) x) →
  evs !! j = Some (EvSave q' wav' rate' x') →
  abspath d q' ≠ abspath d q.
Proof.
  intros Ht Hi Hj.
  pose proof (script_trace_paths _ _ Ht) as Hp.
  apply reference_is_no_output.
  - apply (proj1 (Forall_lookup _ _) Hp _ _ Hi).
  - apply (proj1 (Forall_lookup _ _) Hp _ _ Hj).
Qed.

Section Disk.
Context {K : Contracts C}.

Lemma replay_cwd w evs w' : replay w evs w' → cwd w' = cwd w.
Proof.
  induction 1 as [w | d r w w1 evs w' E _ IH | m t q r w w1 evs w' E _ IH
                 | q wav rate r w w1 evs w' E _ IH]; [done | ..]; rewrite IH.
  - by apply load_frame in E as [? _].
  - by apply generate_frame in E as [? _].
  - by apply save_frame in E as [? _].
Qed.

Lemma replay_untouched w evs w' k :
  replay w evs w' →
  (∀ i q wav rate x,
     evs !! i = Some (EvSave q wav rate x) → k ≠ abspath (cwd w) q) →
  files w' !! k = files w !! k.
Proof.
  induction 1 as [w | d r w w1 evs w' E _ IH | m t q r w w1 evs w' E _ IH
                 | q wav rate r w w1 evs w' E _ IH]; intros Hk; [done | ..].
  - apply load_frame in E as [Ec Ef]. rewrite IH, Ef; [done |].
    intros i ????. rewrite Ec. apply (Hk (S i)).
  - apply generate_frame in E as [Ec Ef]. rewrite IH, Ef; [done |].
    intros i ????. rewrite Ec. apply (Hk (S i)).
  - apply save_frame in E as [Ec Ef]. rewrite IH.
    + apply Ef. by apply (Hk 0%nat _ wav rate r).
    + intros i ????. rewrite Ec. apply (Hk (S i)).
Qed.

Lemma replay_saved w evs w' i q wav rate :
  replay w evs w' →
  evs !! i = Some (EvSave q wav rate (inr tt)) →
  (∀ j q' wav' rate' x,
     (i < j)%nat → evs !! j = Some (EvSave q' wav' rate' x) →
     abspath (cwd w) q' ≠ abspath (cwd w) q) →
  files w' !! abspath (cwd w) q = Some (encode wav rate).
Proof.
  intros Hr. revert i.
  induction Hr as [w | d r w w1 evs w' E _ IH | m t a r w w1 evs w' E _ IH
                  | a wav0 rate0 r w w1 evs w' E Hr IH]; intros i Hi Hlater.
  - done.
  - destruct i as [|i]; [done |]. apply load_frame in E as [Ec _].
    rewrite <- Ec. apply (IH i); [done |]. rewrite Ec.
    intros j ???? Hj. apply (Hlater (S j)). lia.
  - destruct i as [|i]; [done |]. apply generate_frame in E as [Ec _].
    rewrite <- Ec. apply (IH i); [done |]. rewrite Ec.
    intros j ???? Hj. apply (Hlater (S j)). lia.
  - destruct i as [|i].
    + simpl in Hi. injection Hi as -> -> -> ->.
      pose proof (save_file _ _ _ _ _ _ E) as Hf.
      apply save_frame in E as [Ec _].
      rewrite (replay_untouched _ _ _ _ Hr); [done |].
      intros j q' wav' rate' x Hj. rewrite Ec.
      apply not_eq_sym, (Hlater (S j) q' wav' rate' x); [lia | done].
    + apply save_frame in E as [Ec _].
      rewrite <- Ec. apply (IH i); [done |]. rewrite Ec.
      intros j ???? Hj. apply (Hlater (S j)). lia.
Qed.

Lemma replay_prompt w evs w' i m t q wav :
  replay w evs w' →
  evs !! i = Some (EvGenerate m t (Some q) (inr wav)) →
  (∀ j q' wav' rate' x,
     (j < i)%nat → evs !! j = Some (EvSave q' wav' rate' x) →
     abspath (cwd w) q' ≠ abspath (cwd w) q) →
  is_Some (files w !! abspath (cwd w) q).
Proof.
  intros Hr. revert i.
  induction Hr as [w | d r w w1 evs w' E _ IH | m0 t0 a r w w1 evs w' E _ IH
                  | a wav0 rate0 r w w1 evs w' E Hr IH]; intros i Hi Hearlier.
  - done.
  - destruct i as [|i]; [done |]. apply load_frame in E as [Ec Ef].
    rewrite <- Ec, <- Ef. apply (IH i); [done |]. rewrite Ec.
    intros j ???? Hj. apply (Hearlier (S j)). lia.
  - destruct i as [|i].
    + simpl in Hi. injection Hi as -> -> -> ->.
      by apply generate_prompt in E.
    + apply generate_frame in E as [Ec Ef].
      rewrite <- Ec, <- Ef. apply (IH i); [done |]. rewrite Ec.
      intros j ???? Hj. apply (Hearlier (S j)). lia.
  - destruct i as [|i]; [done |]. apply save_frame in E as [Ec Ef].
    rewrite <- Ef.
    + rewrite <- Ec. apply (IH i); [done |]. rewrite Ec.
      intros j ???? Hj. apply (Hearlier (S j)). lia.
    + apply not_eq_sym, (Hearlier 0%nat a wav0 rate0 r); [lia | done].
Qed.

(** C2.  When a call of a run raises, the run ends with that exception:
    the call is the last one made, every call before it had returned (none
    was made twice, none stands in for it), every waveform saved before it
    is on disk under its path in the working directory exactly as it was
    encoded, and no file other than those the run saved to has changed. *)
Theorem failure_is_terminal p w r s' i ev e :
  run p w = (r, s') →
  calls s' !! i = Some ev →
  event_fault ev = Some e →
  r = inl (Raised e) ∧
  length (calls s') = S i ∧
  (∀ j ev', (j < i)%nat → calls s' !! j = Some ev' → event_fault ev' = None) ∧
  (∀ j q wav rate x,
     (j < i)%nat → calls s' !! j = Some (EvSave q wav rate x) →
     files (outside s') !! abspath (cwd w) q = Some (encode wav rate)) ∧
  (∀ k, (∀ j q wav rate x, calls s' !! j = Some (EvSave q wav rate x) →
                           k ≠ abspath (cwd w) q) →
        files (outside s') !! k = files w !! k).
Proof.
  intros H Hi He. destruct (run_inv _ _ _ _ H) as (Ht & Hr & _ & _).
  assert (Hshape : r = inl (Raised e) ∧ length (calls s') = S i ∧
            ∀ j ev', (j < i)%nat → calls s' !! j = Some ev' →
                     event_fault ev' = None).
  { clear Hr. inversion Ht as [| | | | | | |]; subst;
      match goal with E : _ = calls s' |- _ => rewrite <- E in *; clear E end;
      by_index i; simpl in He; simplify_eq;
      (split; [done |]; split; [done |]); intros j ev' Hj Hev;
      by_index j; lia. }
  destruct Hshape as (-> & Hlen & Hbefore). repeat (split; [done |]). split.
  - intros j q wav rate x Hj Hsave.
    assert (x = inr tt) as ->.
    { specialize (Hbefore _ _ Hj Hsave). by destruct x as [?|[]]. }
    apply (replay_saved _ _ _ _ _ _ _ Hr Hsave).
    intros j' q' wav' rate' x' Hlt Hsave'.
    apply (script_outputs_apart _ _ _ _ _ _ _ _ _ _ _ _ _ Ht Hsave Hsave'). lia.
  - intros k Hk. by apply (replay_untouched _ _ _ _ Hr).
Qed.

(** C3.  When loading raises, the run ends with that exception after this
    one call: nothing was bound, nothing was synthesized or saved, and the
    audio files on disk are what they were.  In every run the load is the
    first call and the only load. *)
Theorem load_failure_no_output p w :
  (∀ e w1,
     from_pretrained "cuda" w = (inl e, w1) →
     ∃ s', run p w = (inl (Raised e), s') ∧
           calls s' = [EvLoad "cuda" (inl e)] ∧
           globals s' = ∅ ∧
           files (outside s') = files w) ∧
  (∀ i ev, calls (run p w).2 !! i = Some ev → is_load ev = true ↔ i = 0%nat).
Proof.
  split.
  - intros e w1 E. unfold run, main. rewrite seq_eq, line4_eq. simpl.
    rewrite E. eexists. repeat (split; [reflexivity |]). simpl.
    by apply load_frame in E as [_ ?].
  - destruct (run p w) as [r s'] eqn:H. simpl.
    destruct (run_inv _ _ _ _ H) as (Ht & _).
    intros i ev Hi. inversion Ht as [| | | | | | |]; subst;
      match goal with E : _ = calls s' |- _ => rewrite <- E in *; clear E end;
      by_index i; simpl; split; done.
Qed.

(** C9.  Every load of every run asks for the device cuda, and it is the
    first call of the run.  On a host that lacks this device the run ends
    with the exception the load raised, after the load alone, with the
    audio files on disk as they were. *)
Theorem device_is_cuda p w :
  (∃ x, calls (run p w).2 !! 0%nat = Some (EvLoad "cuda" x)) ∧
  (∀ i d x, calls (run p w).2 !! i = Some (EvLoad d x) →
            d = "cuda" ∧ i = 0%nat) ∧
  (has_device w "cuda" = false →
   ∃ e, (run p w).1 = inl (Raised e) ∧
        calls (run p w).2 = [EvLoad "cuda" (inl e)] ∧
        files (outside (run p w).2) = files w).
Proof.
  split; [| split].
  - destruct (run p w) as [r s'] eqn:H. simpl.
    destruct (run_inv _ _ _ _ H) as (Ht & _).
    inversion Ht; subst; eauto.
  - destruct (run p w) as [r s'] eqn:H. simpl.
    destruct (run_inv _ _ _ _ H) as (Ht & _).
    intros i d x Hi. inversion Ht as [| | | | | | |]; subst;
      match goal with E : _ = calls s' |- _ => rewrite <- E in *; clear E end;
      by_index i.
  - intros Hdev. unfold run, main. rewrite seq_eq, line4_eq. simpl.
    destruct (from_pretrained "cuda" w) as [x w1] eqn:E.
    destruct (load_device _ _ _ _ E Hdev) as [e ->].
    exists e. repeat (split; [reflexivity |]). simpl.
    by apply load_frame in E as [_ ?].
Qed.

(** C10.  Every path a run passes to a collaborator is one of sample.wav,
    dad_sample.wav (references) and test-1.wav, test-2.wav, test-3.wav
    (outputs), and none of them is absolute.  The working directory is the
    same after the run.  A synthesis with a reference returned only if the
    reference was a file of the working directory when the run began, and
    every save that returned has left the encoded waveform under its name
    in the working directory. *)
Theorem paths_are_relative p w r s' :
  run p w = (r, s') →
  Forall names_script_paths (calls s') ∧
  cwd (outside s') = cwd w ∧
  (∀ i m t q wav,
     calls s' !! i = Some (EvGenerate m t (Some q) (inr wav)) →
     is_Some (files w !! (cwd w +:+ "/" +:+ q))) ∧
  (∀ i q wav rate,
     calls s' !! i = Some (EvSave q wav rate (inr tt)) →
     files (outside s') !! (cwd w +:+ "/" +:+ q) = Some (encode wav rate)).
Proof.
  intros H. destruct (run_inv _ _ _ _ H) as (Ht & Hr & _ & _).
  pose proof (script_trace_paths _ _ Ht) as Hp.
  split; [done |]. split; [by apply replay_cwd in Hr |]. split.
  - intros i m t q wav Hi.
    destruct (proj1 (Forall_lookup _ _) Hp _ _ Hi) as [Hq _].
    replace (cwd w +:+ "/" +:+ q) with (abspath (cwd w) q)
      by (unfold abspath; by rewrite Hq).
    apply (replay_prompt _ _ _ _ _ _ _ _ Hr Hi).
    intros j q' wav' rate' x _ Hj.
    apply (script_reference_apart _ _ _ _ _ _ _ _ _ _ _ _ _ Ht Hi Hj).
  - intros i q wav rate Hi.
    destruct (proj1 (Forall_lookup _ _) Hp _ _ Hi) as [Hq _].
    replace (cwd w +:+ "/" +:+ q) with (abspath (cwd w) q)
      by (unfold abspath; by rewrite Hq).
    apply (replay_saved _ _ _ _ _ _ _ Hr Hi).
    intros j q' wav' rate' x Hlt Hj.
    apply (script_outputs_apart _ _ _ _ _ _ _ _ _ _ _ _ _ Ht Hi Hj). lia.
Qed.

(** A synthesis with a reference that returned found the reference in the
    working directory as it was when the run began. *)
Lemma prompt_was_there r evs w w' i m t q wav :
  script_trace r evs → replay w evs w' →
  evs !! i = Some (EvGenerate m t (Some q) (inr wav)) →
  is_Some (files w !! abspath (cwd w) q).
Proof.
  intros Ht Hr Hi. apply (replay_prompt _ _ _ _ _ _ _ _ Hr Hi).
  intros j q' wav' rate' x _ Hj.
  apply (script_reference_apart _ _ _ _ _ _ _ _ _ _ _ _ _ Ht Hi Hj).
Qed.

(** X8.  The script never writes over its reference recordings: whatever
    the outcome of the run, sample.wav and dad_sample.wav of the working
    directory are after it what they were before it (present with the same
    content, or absent). *)
Theorem references_untouched p w r s' q :
  run p w = (r, s') →
  q ∈ ["sample.wav"; "dad_sample.wav"] →
  files (outside s') !! abspath (cwd w) q = files w !! abspath (cwd w) q.
Proof.
  intros H Hq. destruct (run_inv _ _ _ _ H) as (Ht & Hr & _ & _).
  apply (replay_untouched _ _ _ _ Hr).
  intros i q' wav rate x Hi.
  apply not_eq_sym, reference_is_no_output.
  - split; [| done]. set_unfold. intuition (subst; reflexivity).
  - apply (proj1 (Forall_lookup _ _) (script_trace_paths _ _ Ht) _ _ Hi).
Qed.

(** X9.  Without sample.wav in the working directory the run cannot
    complete: it makes at most four calls and hands at most test-1.wav to
    the writer.  Without dad_sample.wav it cannot complete either: at most
    six calls, and test-3.wav is never handed to the writer. *)
Theorem missing_reference_stops p w r s' :
  run p w = (r, s') →
  (files w !! abspath (cwd w) "sample.wav" = None →
   r ≠ inr tt ∧ (length (calls s') ≤ 4)%nat ∧
   fst <$> written (calls s') `prefix_of` ["test-1.wav"]) ∧
  (files w !! abspath (cwd w) "dad_sample.wav" = None →
   r ≠ inr tt ∧ (length (calls s') ≤ 6)%nat ∧
   fst <$> written (calls s') `prefix_of` ["test-1.wav"; "test-2.wav"]).
Proof.
  intros H. destruct (run_inv _ _ _ _ H) as (Ht & Hr & _ & _).
  assert (Hthere : ∀ i m t q wav,
            calls s' !! i = Some (EvGenerate m t (Some q) (inr wav)) →
            files w !! abspath (cwd w) q ≠ None).
  { intros i m t q wav Hi.
    destruct (prompt_was_there _ _ _ _ _ _ _ _ _ Ht Hr Hi) as [a ->]. done. }
  clear Hr H.
  inversion Ht as [| | | | | | |]; subst;
    match goal with E : _ = calls s' |- _ => rewrite <- E in *; clear E end;
    (split; intros Hnone;
     first
       [ by (split; [done |]; split; [simpl; lia | eexists; reflexivity])
       | exfalso;
         first [ by apply (Hthere 3%nat _ _ _ _ eq_refl)
               | by apply (Hthere 5%nat _ _ _ _ eq_refl) ] ]).
Qed.

(** X10.  A run that completes changes the disk by exactly three files:
    afterwards test-1.wav, test-2.wav and test-3.wav of the working
    directory hold the three synthesized waveforms, in the order they were
    produced, encoded at the sample rate of the loaded handle, written over
    whatever was there, and every other file is as it was. *)
Theorem disk_after_completed_run p w s' :
  run p w = (inr tt, s') →
  ∃ h w1 w2 w3,
    calls s' !! 0%nat = Some (EvLoad "cuda" (inr h)) ∧
    synthesized (calls s') = [w1; w2; w3] ∧
    files (outside s') =
      <[abspath (cwd w) "test-1.wav" := encode w1 (sr h)]>
        (<[abspath (cwd w) "test-2.wav" := encode w2 (sr h)]>
           (<[abspath (cwd w) "test-3.wav" := encode w3 (sr h)]> (files w))).
Proof.
  intros H. destruct (run_inv _ _ _ _ H) as (Ht & Hr & _ & _).
  pose proof (script_trace_paths _ _ Ht) as Hp.
  assert (Hsaved : ∀ i q wav rate,
            calls s' !! i = Some (EvSave q wav rate (inr tt)) →
            files (outside s') !! abspath (cwd w) q = Some (encode wav rate)).
  { intros i q wav rate Hi. apply (replay_saved _ _ _ _ _ _ _ Hr Hi).
    intros j q' wav' rate' x Hlt Hj.
    apply (script_outputs_apart _ _ _ _ _ _ _ _ _ _ _ _ _ Ht Hi Hj). lia. }
  assert (Hother : ∀ k,
            (∀ q, q ∈ ["test-1.wav"; "test-2.wav"; "test-3.wav"] →
                  k ≠ abspath (cwd w) q) →
            files (outside s') !! k = files w !! k).
  { intros k Hk. apply (replay_untouched _ _ _ _ Hr).
    intros i q wav rate x Hi. apply Hk.
    apply (proj1 (Forall_lookup _ _) Hp _ _ Hi). }
  clear Hr Hp H.
  inversion Ht as [| | | | | | | h w1 w2 w3]; subst.
  match goal with E : _ = calls s' |- _ => rewrite <- E in *; clear E end.
  exists h, w1, w2, w3.
  split; [reflexivity |]. split; [reflexivity |].
  apply map_eq. intros k. rewrite !lookup_insert.
  repeat case_decide; subst.
  - apply (Hsaved 2%nat _ _ _ eq_refl).
  - apply (Hsaved 4%nat _ _ _ eq_refl).
  - apply (Hsaved 6%nat _ _ _ eq_refl).
  - apply Hother. intros q Hq. set_unfold. intuition congruence.
Qed.

End Disk.

End Properties.

(** * The theorems at work on the stand-in *)

#[local] Existing Instance Stub.collaborators.

Lemma stub_contracts : Contracts Stub.collaborators.
Proof.
  split; simpl.
  - intros d w r w'. unfold Stub.load. case_bool_decide; intros [= <- <-]; done.
  - intros d w r w'. unfold Stub.load.
    case_bool_decide; intros [= <- <-]; [done | eauto].
  - intros m t q w r w'. unfold Stub.synthesize.
    case_bool_decide; [intros [= <- <-]; done |].
    destruct q as [q|]; [| intros [= <- <-]; done].
    destruct (Stub.disk w !! abspath (Stub.dir w) q) as [[voice ?]|];
      intros [= <- <-]; done.
  - intros m t q w wav w'. unfold Stub.synthesize.
    case_bool_decide; [done |].
    destruct (Stub.disk w !! abspath (Stub.dir w) q) as [[voice ?]|]; [eauto | done].
  - intros q wav rate w r w'. unfold Stub.persist.
    case_bool_decide; intros [= <- <-]; [done |]. simpl.
    split; [done |]. intros k Hk. by rewrite lookup_insert_ne.
  - intros q wav rate w u w'. unfold Stub.persist.
    case_bool_decide; intros ?; simplify_eq/=. by rewrite lookup_insert_eq.
Qed.

(** On the host that has everything the run completes with the seven
    calls of the script; without the device it stops at the load; without
    dad_sample.wav it stops at the third synthesis, and the disk then holds
    the reference that was there and the two outputs already saved. *)
Example studio_run :
  (demo Stub.quiet Stub.studio).1 = inr tt ∧
  request_of <$> calls (demo Stub.quiet Stub.studio).2 = script_requests.
Proof. vm_compute. split; reflexivity. Qed.

Example laptop_run :
  (demo Stub.quiet Stub.laptop).1 = inl (Raised Stub.ModelLoadError) ∧
  calls (demo Stub.quiet Stub.laptop).2
    = [EvLoad "cuda" (inl Stub.ModelLoadError)].
Proof. vm_compute. split; reflexivity. Qed.

Example half_studio_run :
  (demo Stub.quiet Stub.half_studio).1
    = inl (Raised Stub.AudioPromptError) ∧
  request_of <$> calls (demo Stub.quiet Stub.half_studio).2
    = take 6 script_requests ∧
  (map_to_list (Stub.disk (outside (demo Stub.quiet Stub.half_studio).2))).*1
    ≡ₚ ["/home/demo/sample.wav"; "/home/demo/test-1.wav";
        "/home/demo/test-2.wav"].
Proof. vm_compute. repeat split; reflexivity. Qed.

Lemma fixed_sequence_witness :
  ∃ h w1 w2 w3,
    calls (demo Stub.quiet Stub.studio).2 =
    [EvLoad "cuda" (inr h);
     EvGenerate h "Suhhhhhhhhhhhhh" None (inr w1);
     EvSave "test-1.wav" w1 (sr h) (inr tt);
     EvGenerate h "Suhhhhhhhhhhhhh" (Some "sample.wav") (inr w2);
     EvSave "test-2.wav" w2 (sr h) (inr tt);
     EvGenerate h "Suhhhhhhhhhhhhh" (Some "dad_sample.wav") (inr w3);
     EvSave "test-3.wav" w3 (sr h) (inr tt)].
Proof.
  destruct (fixed_sequence (C := Stub.collaborators) Stub.quiet Stub.studio
              (demo Stub.quiet Stub.studio).1 (demo Stub.quiet Stub.studio).2)
    as (_ & Hc & _).
  - apply surjective_pairing.
  - apply Hc. vm_compute. reflexivity.
Defined.

Lemma failure_is_terminal_witness :
  (demo Stub.quiet Stub.half_studio).1 = inl (Raised Stub.AudioPromptError) ∧
  length (calls (demo Stub.quiet Stub.half_studio).2) = 6%nat ∧
  Stub.disk (outside (demo Stub.quiet Stub.half_studio).2)
    !! "/home/demo/test-1.wav"
  = Some (Stub.samples "Suhhhhhhhhhhhhh", 24000).
Proof.
  assert (Hi : calls (demo Stub.quiet Stub.half_studio).2 !! 5%nat
               = Some (EvGenerate 24000 "Suhhhhhhhhhhhhh"
                         (Some "dad_sample.wav") (inl Stub.AudioPromptError)))
    by (vm_compute; reflexivity).
  destruct (failure_is_terminal (K := stub_contracts) Stub.quiet
              Stub.half_studio _ _ 5%nat _ Stub.AudioPromptError
              (surjective_pairing _) Hi eq_refl) as (Hr & Hl & _ & Hs & _).
  split; [exact Hr |]. split; [exact Hl |].
  apply (Hs 2%nat "test-1.wav" (Stub.samples "Suhhhhhhhhhhhhh") 24000
           (inr tt)); [lia | vm_compute; reflexivity].
Defined.

Lemma load_failure_no_output_witness :
  ∃ s', demo Stub.noisy Stub.laptop = (inl (Raised Stub.ModelLoadError), s') ∧
        calls s' = [EvLoad "cuda" (inl Stub.ModelLoadError)] ∧
        globals s' = ∅ ∧
        Stub.disk (outside s') = Stub.disk Stub.laptop.
Proof.
  destruct (load_failure_no_output (C := Stub.collaborators)
              (K := stub_contracts) Stub.noisy Stub.laptop) as [Hfail _].
  apply (Hfail Stub.ModelLoadError Stub.laptop). reflexivity.
Defined.

Lemma three_requests_witness :
  synthesis_requests (calls (demo Stub.quiet Stub.studio).2) =
    [("Suhhhhhhhhhhhhh", None); ("Suhhhhhhhhhhhhh", Some "sample.wav");
     ("Suhhhhhhhhhhhhh", Some "dad_sample.wav")] ∧
  fst <$> written (calls (demo Stub.quiet Stub.studio).2) =
    ["test-1.wav"; "test-2.wav"; "test-3.wav"].
Proof.
  destruct (three_requests (C := Stub.collaborators) Stub.quiet Stub.studio
              (demo Stub.quiet Stub.studio).1 (demo Stub.quiet Stub.studio).2)
    as (_ & _ & _ & Hc).
  - apply surjective_pairing.
  - destruct Hc as (Hreq & Hout & _); [vm_compute; reflexivity |].
    split; assumption.
Defined.

Lemma save_uses_model_rate_witness :
  ∃ i h t a,
    4%nat = S i ∧
    calls (demo Stub.quiet Stub.studio).2 !! 0%nat
      = Some (EvLoad "cuda" (inr h)) ∧
    globals (demo Stub.quiet Stub.studio).2 !! "model" = Some (VModel h) ∧
    calls (demo Stub.quiet Stub.studio).2 !! i
      = Some (EvGenerate h t a
                (inr ([3; 1; 4] ++ Stub.samples "Suhhhhhhhhhhhhh"))) ∧
    24000 = sr h.
Proof.
  apply (save_uses_model_rate (C := Stub.collaborators) Stub.quiet Stub.studio
           (demo Stub.quiet Stub.studio).1 (demo Stub.quiet Stub.studio).2
           4%nat "test-2.wav"
           ([3; 1; 4] ++ Stub.samples "Suhhhhhhhhhhhhh") 24000 (inr tt)).
  - apply surjective_pairing.
  - vm_compute. reflexivity.
Defined.

Lemma no_outside_parameters_witness :
  calls (demo Stub.quiet Stub.studio).2 = calls (demo Stub.noisy Stub.studio).2 ∧
  request_of <$> calls (demo Stub.quiet Stub.studio).2 = script_requests.
Proof.
  destruct (no_outside_parameters (C := Stub.collaborators) Stub.quiet
              Stub.noisy Stub.studio Stub.studio Stub.laptop)
    as (_ & Hcalls & _ & _ & _ & Hdone & _).
  split; [exact Hcalls |]. apply Hdone. vm_compute. reflexivity.
Defined.

Lemma model_bound_once_witness :
  length (List.filter is_load (calls (demo Stub.quiet Stub.half_studio).2))
    = 1%nat ∧
  globals (demo Stub.quiet Stub.half_studio).2 !! "model" = Some (VModel 24000).
Proof.
  destruct (model_bound_once (C := Stub.collaborators) Stub.quiet
              Stub.half_studio (demo Stub.quiet Stub.half_studio).1
              (demo Stub.quiet Stub.half_studio).2) as (Hone & Hbound & _).
  - apply surjective_pairing.
  - split; [exact Hone |]. apply (Hbound 24000). vm_compute. reflexivity.
Defined.

Lemma device_is_cuda_witness :
  ∃ e, (demo Stub.quiet Stub.laptop).1 = inl (Raised e) ∧
       calls (demo Stub.quiet Stub.laptop).2 = [EvLoad "cuda" (inl e)] ∧
       Stub.disk (outside (demo Stub.quiet Stub.laptop).2)
         = Stub.disk Stub.laptop.
Proof.
  destruct (device_is_cuda (C := Stub.collaborators) (K := stub_contracts)
              Stub.quiet Stub.laptop) as (_ & _ & Hnodev).
  apply Hnodev. vm_compute. reflexivity.
Defined.

Lemma paths_are_relative_witness :
  is_Some (Stub.disk Stub.studio !! "/home/demo/dad_sample.wav") ∧
  Stub.disk (outside (demo Stub.quiet Stub.studio).2)
    !! "/home/demo/test-3.wav"
  = Some ([2; 7; 1; 8] ++ Stub.samples "Suhhhhhhhhhhhhh", 24000).
Proof.
  destruct (paths_are_relative (C := Stub.collaborators) (K := stub_contracts)
              Stub.quiet Stub.studio (demo Stub.quiet Stub.studio).1
              (demo Stub.quiet Stub.studio).2)
    as (_ & _ & Href & Hout).
  - apply surjective_pairing.
  - split.
    + apply (Href 5%nat 24000 "Suhhhhhhhhhhhhh" "dad_sample.wav"
               ([2; 7; 1; 8] ++ Stub.samples "Suhhhhhhhhhhhhh")).
      vm_compute. reflexivity.
    + apply (Hout 6%nat "test-3.wav"
               ([2; 7; 1; 8] ++ Stub.samples "Suhhhhhhhhhhhhh") 24000).
      vm_compute. reflexivity.
Defined.



Lemma main_ignores_earlier_state_witness :
  (main fresh).1 = (main warm).1 ∧
  ∃ evs,
    calls (main fresh).2 = calls fresh ++ evs ∧
    calls (main warm).2 = calls warm ++ evs.
Proof.
  destruct (main_ignores_earlier_state (C := Stub.collaborators)
              fresh warm eq_refl) as (Hres & _ & Hcalls).
  split; [exact Hres | exact Hcalls].
Defined.

Lemma success_iff_no_fault_witness :
  length (calls (demo Stub.quiet Stub.studio).2) = 7%nat.
Proof.
  assert (Hrun : demo Stub.quiet Stub.studio
                 = ((demo Stub.quiet Stub.studio).1,
                    (demo Stub.quiet Stub.studio).2))
    by apply surjective_pairing.
  destruct (success_iff_no_fault (C := Stub.collaborators) _ _ _ _ Hrun)
    as (_ & _ & Hseven).
  apply Hseven. vm_compute. reflexivity.
Defined.

Lemma outputs_in_order_witness :
  fst <$> written (calls (demo Stub.quiet Stub.half_studio).2) `prefix_of`
    ["test-1.wav"; "test-2.wav"; "test-3.wav"] ∧
  (length (synthesized (calls (demo Stub.quiet Stub.half_studio).2))
   ≤ S (length (written (calls (demo Stub.quiet Stub.half_studio).2))))%nat.
Proof.
  assert (Hrun : demo Stub.quiet Stub.half_studio
                 = ((demo Stub.quiet Stub.half_studio).1,
                    (demo Stub.quiet Stub.half_studio).2))
    by apply surjective_pairing.
  destruct (outputs_in_order (C := Stub.collaborators) _ _ _ _ Hrun)
    as (Hpaths & _ & Hpending).
  split; [exact Hpaths | exact Hpending].
Defined.


Lemma references_untouched_witness :
  Stub.disk (outside (demo Stub.quiet Stub.studio).2)
    !! "/home/demo/sample.wav"
  = Stub.disk Stub.studio !! "/home/demo/sample.wav".
Proof.
  assert (Hrun : demo Stub.quiet Stub.studio
                 = ((demo Stub.quiet Stub.studio).1,
                    (demo Stub.quiet Stub.studio).2))
    by apply surjective_pairing.
  apply (references_untouched (C := Stub.collaborators) (K := stub_contracts)
           _ _ _ _ "sample.wav" Hrun).
  apply (bool_decide_unpack _). vm_compute. exact I.
Defined.

Lemma missing_reference_stops_witness :
  (demo Stub.quiet Stub.half_studio).1 ≠ inr tt ∧
  (length (calls (demo Stub.quiet Stub.half_studio).2) ≤ 6)%nat ∧
  fst <$> written (calls (demo Stub.quiet Stub.half_studio).2) `prefix_of`
    ["test-1.wav"; "test-2.wav"].
Proof.
  assert (Hrun : demo Stub.quiet Stub.half_studio
                 = ((demo Stub.quiet Stub.half_studio).1,
                    (demo Stub.quiet Stub.half_studio).2))
    by apply surjective_pairing.
  destruct (missing_reference_stops (C := Stub.collaborators)
              (K := stub_contracts) _ _ _ _ Hrun) as (_ & Hdad).
  apply Hdad. vm_compute. reflexivity.
Defined.

Lemma disk_after_completed_run_witness :
  ∃ h w1 w2 w3,
    calls (demo Stub.quiet Stub.studio).2 !! 0%nat
      = Some (EvLoad "cuda" (inr h)) ∧
    synthesized (calls (demo Stub.quiet Stub.studio).2) = [w1; w2; w3] ∧
    Stub.disk (outside (demo Stub.quiet Stub.studio).2) =
      <["/home/demo/test-1.wav" := (w1, sr h)]>
        (<["/home/demo/test-2.wav" := (w2, sr h)]>
           (<["/home/demo/test-3.wav" := (w3, sr h)]>
              (Stub.disk Stub.studio))).
Proof.
  apply (disk_after_completed_run (C := Stub.collaborators)
           (K := stub_contracts) Stub.quiet Stub.studio
           (demo Stub.quiet Stub.studio).2).
  transitivity ((demo Stub.quiet Stub.studio).1,
                (demo Stub.quiet Stub.studio).2);
    [apply surjective_pairing |].
  apply (f_equal (λ r, (r, (demo Stub.quiet Stub.studio).2))).
  vm_compute. reflexivity.
Defined.
